(** * estimate_HOMA_IR: the HOMA-IR estimator of [estimate_HOMA_IR.ipynb]

    The notebook holds one function, [estimate_homa_ir], and one example
    cell that calls it on [(20, 140)] and prints the result with two
    decimals.  The function is a chain of five arithmetic steps built from
    Python's [*] and [/] and integer literals only.

    The embedding is written once, over an interface [Number] of the
    numeric operations the function body uses, and read at two carriers:
    - [Q], exact rational arithmetic, for the algebraic properties;
    - [spec_float] at binary64, Python's [float], for the value the example
      cell really prints.
    Python's [/] raises [ZeroDivisionError] on a zero divisor, so it is a
    fallible operation and the function lives in an error monad.

    A third reading, [Py.estimate_homa_ir], takes Python's own numbers, an
    [int] or a [float] in either place, with the conversions and the
    [OverflowError] that mixing them brings; it is proved to agree with the
    binary64 reading on floats and on the ints that are exact as floats. *)

From Stdlib Require Import ZArith QArith Qabs Qround Qpower Qfield Lia Lqa.
From Stdlib Require Import String Ascii List DecimalString DecimalPos DecimalN.
From Stdlib Require Import SpecFloat.
Import ListNotations.

Local Open Scope Z_scope.

(** ** Exceptions and results *)

Inductive exn : Type :=
| ZeroDivisionError.

Inductive result (A : Type) : Type :=
| Ok (v : A)
| Raise (e : exn).

Arguments Ok {A} v.
Arguments Raise {A} e.

Definition bind {A B : Type} (r : result A) (k : A -> result B) : result B :=
  match r with
  | Ok v => k v
  | Raise e => Raise e
  end.

Declare Scope py_scope.
Delimit Scope py_scope with py.

Notation "x <- c ;; k" := (bind c (fun x => k))
  (at level 61, c at next level, right associativity) : py_scope.

(** ** The numeric interface

    What the body of [estimate_homa_ir] asks of its operands: integer
    literals can be mixed with them ([of_int]), they can be multiplied and
    divided, and a divisor can be tested for zero. *)

Class Number (A : Type) : Type := {
  of_int : Z -> A;
  mul : A -> A -> A;
  div : A -> A -> A;
  is_zero : A -> bool
}.

(** Python's true division [x / y]. *)
Definition truediv {A : Type} `{Number A} (x y : A) : result A :=
  if is_zero y then Raise ZeroDivisionError else Ok (div x y).

(** ** The estimator *)

Section Estimator.

Context {A : Type} `{Number A}.

Local Open Scope py_scope.

Local Notation "x * y" := (mul x y) : py_scope.
Local Notation "x / y" := (truediv x y) : py_scope.
Local Notation "# n" := (of_int n) (at level 5, format "# n") : py_scope.

Definition estimate_homa_ir
    (total_daily_insulin_IU fasting_glucose_mg_dl : A) : result A :=
  (* Step 1: IU per hour *)
  insulin_infusion_rate_IU_per_hour <- total_daily_insulin_IU / #24 ;;
  (* Step 2: pmol per minute *)
  insulin_infusion_rate_pmol_per_min <-
    (insulin_infusion_rate_IU_per_hour * #6 * #1000) / #60 ;;
  (* Step 3: steady-state concentration, pmol per litre *)
  let insulin_clearance_mL_per_min := #1500 in
  per_mL <- insulin_infusion_rate_pmol_per_min / insulin_clearance_mL_per_min ;;
  let Css_pmol_per_L := per_mL * #1000 in
  (* Step 4: micro-units per mL *)
  fasting_insulin_uU_per_mL <- Css_pmol_per_L / #6 ;;
  (* Step 5: the HOMA-IR ratio *)
  homa_ir <- (fasting_insulin_uU_per_mL * fasting_glucose_mg_dl) / #405 ;;
  Ok homa_ir.

(** The five steps with the divisions taken as never failing: the
    chained expression
    [(((((d/24) * 6 * 1000 / 60) / 1500) * 1000) / 6 * g) / 405]. *)
Definition chained (d g : A) : A :=
  div (mul (div (mul (div (div (mul (mul (div d (of_int 24)) (of_int 6))
                                     (of_int 1000))
                                (of_int 60))
                           (of_int 1500))
                      (of_int 1000))
                 (of_int 6))
            g)
      (of_int 405).

(** The divisors that occur in the function body. *)
Definition divisors : list A :=
  [of_int 24; of_int 60; of_int 1500; of_int 6; of_int 405].

End Estimator.

(** ** Exact rational arithmetic *)

#[export] Instance Number_Q : Number Q := {
  of_int := inject_Z;
  mul := Qmult;
  div := Qdiv;
  is_zero := fun q => Qeq_bool q 0
}.

(** ** Python's [float]: IEEE 754 binary64 *)

Definition prec : Z := 53.
Definition emax : Z := 1024.

Definition float : Type := spec_float.

(** Conversion of a Python [int] operand to [float] (round to nearest even):
    what [float * int] and [float / int] do to the integer literals of the
    body.  The example passes the ints [20] and [140]; both are exact as
    floats, so [20 / 24] on ints, the correctly rounded quotient, is the
    float division of their conversions. *)
Definition float_of_int (n : Z) : float := binary_normalize prec emax n 0 false.

(** [b == 0.0], the test [float.__truediv__] makes before dividing: both
    signed zeros are zero, a NaN is not. *)
Definition float_is_zero (x : float) : bool :=
  match x with
  | S754_zero _ => true
  | _ => false
  end.

#[export] Instance Number_float : Number float := {
  of_int := float_of_int;
  mul := SFmul prec emax;
  div := SFdiv prec emax;
  is_zero := float_is_zero
}.

(** The exact value of a finite [float]. *)
Definition float_to_Q (x : float) : option Q :=
  match x with
  | S754_zero _ => Some 0%Q
  | S754_finite s m e =>
      let a := (inject_Z (Zpos m) * Qpower 2 e)%Q in
      Some (if s then Qopp a else a)
  | S754_infinity _ | S754_nan => None
  end.

(** ** Rounding and the format specification [.2f] *)

Local Open Scope string_scope.

(** Round to the nearest integer, ties to even. *)
Definition round_half_even (q : Q) : Z :=
  let f := Qfloor q in
  match Qcompare (q - inject_Z f) (1 # 2) with
  | Lt => f
  | Gt => f + 1
  | Eq => if Z.even f then f else f + 1
  end.

(** The value rounded to two decimal places. *)
Definition round2 (q : Q) : Q := (inject_Z (round_half_even (q * 100)) / 100)%Q.

Definition digits (n : Z) : string := NilZero.string_of_uint (N.to_uint (Z.to_N n)).

Definition two_digits (n : Z) : string :=
  (if (n <? 10)%Z then "0" else "") ++ digits n.

(** A non-negative value in fixed point with two decimals. *)
Definition fixed2 (q : Q) : string :=
  let n := round_half_even (q * 100) in
  digits (n / 100) ++ "." ++ two_digits (n mod 100).

Definition sign_str (neg : bool) : string := if neg then "-" else "".

Class Format (A : Type) : Type := {
  format_2f : A -> string
}.

#[export] Instance Format_Q : Format Q := {
  format_2f := fun q =>
    match Qcompare q 0 with
    | Lt => "-" ++ fixed2 (Qabs q)
    | _ => fixed2 q
    end
}.

#[export] Instance Format_float : Format float := {
  format_2f := fun x =>
    match x with
    | S754_zero s => sign_str s ++ "0.00"
    | S754_infinity s => sign_str s ++ "inf"
    | S754_nan => "nan"
    | S754_finite s m e =>
        sign_str s ++ fixed2 (inject_Z (Zpos m) * Qpower 2 e)
    end
}.

(** ** The notebook session and the example cell *)

Record session (A : Type) : Type := {
  globals : list (string * A);
  stdout : list string
}.

Arguments globals {A} s.
Arguments stdout {A} s.

Section Notebook.

Context {A : Type} `{Number A} `{Format A}.

Local Open Scope py_scope.

Fixpoint store (name : string) (v : A) (g : list (string * A))
    : list (string * A) :=
  match g with
  | [] => [(name, v)]
  | (n, w) :: g' =>
      if String.eqb n name then (n, v) :: g' else (n, w) :: store name v g'
  end.

Definition assign (name : string) (v : A) (s : session A) : session A :=
  {| globals := store name v (globals s); stdout := stdout s |}.

Definition print (line : string) (s : session A) : session A :=
  {| globals := globals s; stdout := stdout s ++ [line] |}.

(** A call of the function from a session: the body reads its two
    parameters and its own locals only, and writes nothing outside. *)
Definition call_estimate_homa_ir (d g : A) (s : session A)
    : result A * session A :=
  (estimate_homa_ir d g, s).

(** The example cell ([__name__ == "__main__"] holds in a notebook). *)
Definition example_cell (s : session A) : result (session A) :=
  let total_daily_insulin := of_int 20 in
  let s := assign "total_daily_insulin" total_daily_insulin s in
  let fasting_glucose := of_int 140 in
  let s := assign "fasting_glucose" fasting_glucose s in
  let (r, s) := call_estimate_homa_ir total_daily_insulin fasting_glucose s in
  homa_ir_estimate <- r ;;
  let s := assign "homa_ir_estimate" homa_ir_estimate s in
  Ok (print ("Estimated HOMA-IR: " ++ format_2f homa_ir_estimate) s).


End Notebook.

Definition fresh {A : Type} : session A := {| globals := []; stdout := [] |}.

(** [returns r q]: the call finished normally with a value equal, as a
    rational number, to [q]. *)
Definition returns (r : result Q) (q : Q) : Prop :=
  match r with
  | Ok v => (v == q)%Q
  | Raise _ => False
  end.

(** ** Reading aids for the properties below *)

(** The largest power of two among the floats, [2^1023]. *)
Definition float_2p1023 : float := S754_finite false 4503599627370496 971.

(** The character of a decimal digit [0..9]. *)
Definition digit_char (k : Z) : ascii := ascii_of_nat (48 + Z.to_nat k).

(** Reading a global name: [None] is Python's [NameError]. *)
Fixpoint load {A : Type} (name : string) (g : list (string * A)) : option A :=
  match g with
  | [] => None
  | (n, w) :: g' => if String.eqb n name then Some w else load name g'
  end.

(** The session a fresh notebook is in after one run of the example cell,
    and after two, in exact arithmetic. *)
Definition session_after_example : session Q :=
  {| globals := [("total_daily_insulin"%string, 20%Q);
                 ("fasting_glucose"%string, 140%Q);
                 ("homa_ir_estimate"%string, (16800000000 # 5248800000)%Q)];
     stdout := ["Estimated HOMA-IR: 3.20"%string] |}.

Definition session_after_rerun : session Q :=
  {| globals := globals session_after_example;
     stdout := ["Estimated HOMA-IR: 3.20"%string;
                "Estimated HOMA-IR: 3.20"%string] |}.

(** ** The function on Python's own numbers

    The example cell passes two [int]s, and a caller may pass an [int] or a
    [float] in either place.  Python's [*] and [/] then work as follows:
    - [int / int] is the quotient rounded once to the nearest [float]; it
      raises [ZeroDivisionError] on a zero divisor and [OverflowError] when
      the rounded quotient is too large for a [float];
    - in every other case an [int] operand is first converted to [float]
      (round to nearest even), which raises [OverflowError] when the [int]
      is too large; then the [float] operation is done, and [/] raises
      [ZeroDivisionError] on a zero divisor;
    - [int * int] is an [int]. *)

Module Py.

Inductive exn : Type :=
| ZeroDivisionError
| OverflowError.

Inductive value : Type :=
| Int (n : Z)
| Float (x : float).

Inductive outcome (A : Type) : Type :=
| Returns (v : A)
| Raises (e : exn).

Arguments Returns {A} v.
Arguments Raises {A} e.

Definition bind {A B : Type} (r : outcome A) (k : A -> outcome B) : outcome B :=
  match r with
  | Returns v => k v
  | Raises e => Raises e
  end.

Declare Scope pyval_scope.
Delimit Scope pyval_scope with pyval.

Notation "x <- c ;; k" := (bind c (fun x => k))
  (at level 61, c at next level, right associativity) : pyval_scope.

(** An infinite result of a conversion or of [int / int] is an overflow. *)
Definition finite_or_overflow (x : float) : outcome float :=
  match x with
  | S754_infinity _ => Raises OverflowError
  | _ => Returns x
  end.

(** The conversion of an operand to [float]. *)
Definition as_float (v : value) : outcome float :=
  match v with
  | Float x => Returns x
  | Int n => finite_or_overflow (float_of_int n)
  end.

(** [a / b] on two [int]s, [b] not zero. *)
Definition int_quotient (a b : Z) : float :=
  let s := xorb (a <? 0)%Z (b <? 0)%Z in
  match a with
  | Z0 => S754_zero s
  | _ =>
      let '(q, e, l) :=
        SFdiv_core_binary prec emax (Z.abs a) 0 (Z.abs b) 0 in
      binary_round_aux prec emax s q e l
  end.

Definition truediv (a b : value) : outcome value :=
  match a, b with
  | Int m, Int n =>
      if (n =? 0)%Z then Raises ZeroDivisionError
      else (x <- finite_or_overflow (int_quotient m n) ;; Returns (Float x))%pyval
  | _, _ =>
      (x <- as_float a ;;
       y <- as_float b ;;
       if float_is_zero y then Raises ZeroDivisionError
       else Returns (Float (SFdiv prec emax x y)))%pyval
  end.

Definition mul (a b : value) : outcome value :=
  match a, b with
  | Int m, Int n => Returns (Int (m * n))
  | _, _ =>
      (x <- as_float a ;;
       y <- as_float b ;;
       Returns (Float (SFmul prec emax x y)))%pyval
  end.

Definition estimate_homa_ir
    (total_daily_insulin_IU fasting_glucose_mg_dl : value) : outcome value :=
  (insulin_infusion_rate_IU_per_hour <-
     truediv total_daily_insulin_IU (Int 24) ;;
   times_6 <- mul insulin_infusion_rate_IU_per_hour (Int 6) ;;
   times_6_000 <- mul times_6 (Int 1000) ;;
   insulin_infusion_rate_pmol_per_min <- truediv times_6_000 (Int 60) ;;
   let insulin_clearance_mL_per_min := Int 1500 in
   per_mL <-
     truediv insulin_infusion_rate_pmol_per_min insulin_clearance_mL_per_min ;;
   Css_pmol_per_L <- mul per_mL (Int 1000) ;;
   fasting_insulin_uU_per_mL <- truediv Css_pmol_per_L (Int 6) ;;
   product <- mul fasting_insulin_uU_per_mL fasting_glucose_mg_dl ;;
   homa_ir <- truediv product (Int 405) ;;
   Returns homa_ir)%pyval.

End Py.

(** * Properties *)

(** ** The function never raises, whatever the carrier *)

Section EstimatorFacts.

Context {A : Type} `{Number A}.

Hypothesis divisors_nonzero :
  Forall (fun x : A => is_zero x = false) divisors.

Lemma truediv_divisor (x y : A) :
  In y divisors -> truediv x y = Ok (div x y).
Proof.
  intros Hy. unfold truediv.
  rewrite Forall_forall in divisors_nonzero.
  now rewrite (divisors_nonzero y Hy).
Qed.

Lemma estimate_homa_ir_unfold (d g : A) :
  estimate_homa_ir d g = Ok (chained d g).
Proof.
  unfold estimate_homa_ir, chained.
  repeat (rewrite truediv_divisor by (simpl; tauto); cbn [bind]).
  reflexivity.
Qed.

End EstimatorFacts.

Lemma divisors_nonzero_Q :
  Forall (fun x : Q => is_zero x = false) divisors.
Proof. repeat constructor. Qed.

Lemma divisors_nonzero_float :
  Forall (fun x : float => is_zero x = false) divisors.
Proof. repeat constructor. Qed.

Lemma chained_Q (d g : Q) :
  chained d g =
  ((((((d / 24) * 6 * 1000 / 60) / 1500) * 1000) / 6 * g) / 405)%Q.
Proof. reflexivity. Qed.

Lemma estimate_homa_ir_Q (d g : Q) :
  estimate_homa_ir d g =
  Ok ((((((d / 24) * 6 * 1000 / 60) / 1500) * 1000) / 6 * g) / 405)%Q.
Proof.
  rewrite (estimate_homa_ir_unfold divisors_nonzero_Q). reflexivity.
Qed.

Lemma estimate_homa_ir_closed (d g : Q) :
  returns (estimate_homa_ir d g) (25 * d * g / 21870)%Q.
Proof. rewrite estimate_homa_ir_Q. simpl. field. Qed.


Lemma returns_eq (r : result Q) (p q : Q) :
  (p == q)%Q -> returns r p -> returns r q.
Proof.
  destruct r as [v | e]; simpl; [| tauto].
  intros Hpq Hp. now rewrite Hp.
Qed.

(** The function respects equality of rational numbers: two
    representations of the same inputs give the same output. *)
Lemma estimate_homa_ir_Proper (d d' g g' : Q) :
  (d == d')%Q -> (g == g')%Q ->
  exists v, estimate_homa_ir d g = Ok v /\ returns (estimate_homa_ir d' g') v.
Proof.
  intros Hd Hg. eexists. split; [apply estimate_homa_ir_Q |].
  rewrite estimate_homa_ir_Q. simpl. now rewrite Hd, Hg.
Qed.

(** ** The value computed *)

Local Open Scope Q_scope.

(** C1: for non-negative [d] and [g] the call returns exactly the chained
    expression [(((((d/24) * 6 * 1000 / 60) / 1500) * 1000) / 6 * g) / 405],
    the five conversion steps in their fixed order. *)
Theorem estimate_homa_ir_chained (d g : Q) :
  0 <= d -> 0 <= g ->
  estimate_homa_ir d g =
  Ok ((((((d / 24) * 6 * 1000 / 60) / 1500) * 1000) / 6 * g) / 405).
Proof. intros _ _. apply estimate_homa_ir_Q. Qed.

Lemma estimate_homa_ir_chained_witness :
  0 <= 20 /\ 0 <= 140 /\
  estimate_homa_ir 20 140 =
  Ok ((((((20 / 24) * 6 * 1000 / 60) / 1500) * 1000) / 6 * 140) / 405).
Proof.
  assert (Hd : 0 <= 20) by (unfold Qle; simpl; lia).
  assert (Hg : 0 <= 140) by (unfold Qle; simpl; lia).
  split; [exact Hd | split; [exact Hg |]].
  exact (estimate_homa_ir_chained 20 140 Hd Hg).
Defined.




(** C3: for all [d] and [g], in exact rational arithmetic, the call returns
    [25 * d * g / 21870], that is [d * g / 874.8]. *)
Theorem estimate_homa_ir_exact (d g : Q) :
  returns (estimate_homa_ir d g) (25 * d * g / 21870) /\
  25 * d * g / 21870 == d * g / 874.8.
Proof. split; [apply estimate_homa_ir_closed | field]. Qed.

(** ** The worked example *)

Lemma estimate_20_140_Q :
  estimate_homa_ir (of_int 20) (of_int 140) = Ok (16800000000 # 5248800000).
Proof. reflexivity. Qed.

Lemma estimate_20_140_float :
  estimate_homa_ir (of_int 20) (of_int 140) =
  Ok (S754_finite false 7207406811063893 (-51) : float).
Proof. vm_compute. reflexivity. Qed.

Lemma example_cell_Q (s : session Q) :
  exists s', example_cell s = Ok s' /\
    stdout s' = (stdout s ++ ["Estimated HOMA-IR: 3.20"%string])%list.
Proof.
  unfold example_cell, call_estimate_homa_ir. cbv beta iota zeta.
  rewrite estimate_20_140_Q. cbn [bind]. eexists. split; reflexivity.
Qed.

Lemma example_cell_float (s : session float) :
  exists s', example_cell s = Ok s' /\
    stdout s' = (stdout s ++ ["Estimated HOMA-IR: 3.20"%string])%list.
Proof.
  unfold example_cell, call_estimate_homa_ir. cbv beta iota zeta.
  rewrite estimate_20_140_float. cbn [bind]. eexists. split; [reflexivity |].
  cbn [stdout print assign]. f_equal.
Qed.

(** C4: [estimate_homa_ir(20, 140)] rounded to two decimal places is [3.20],
    in exact arithmetic and for the binary64 value alike, and the example
    cell, run from any session, prints exactly the line
    [Estimated HOMA-IR: 3.20]. *)
Theorem example_cell_prints_3_20 :
  (exists v : Q,
      estimate_homa_ir (of_int 20) (of_int 140) = Ok v /\ round2 v == 3.20) /\
  (exists (x : float) (v : Q),
      estimate_homa_ir (of_int 20) (of_int 140) = Ok x /\
      float_to_Q x = Some v /\ round2 v == 3.20) /\
  (forall s : session Q, exists s',
      example_cell s = Ok s' /\
      stdout s' = (stdout s ++ ["Estimated HOMA-IR: 3.20"%string])%list) /\
  (forall s : session float, exists s',
      example_cell s = Ok s' /\
      stdout s' = (stdout s ++ ["Estimated HOMA-IR: 3.20"%string])%list).
Proof.
  split; [| split; [| split]].
  - exists (16800000000 # 5248800000).
    split; [apply estimate_20_140_Q |]. vm_compute. reflexivity.
  - exists (S754_finite false 7207406811063893 (-51)).
    exists (inject_Z 7207406811063893 * Qpower 2 (-51)).
    split; [apply estimate_20_140_float |].
    split; [reflexivity |]. vm_compute. reflexivity.
  - exact example_cell_Q.
  - exact example_cell_float.
Qed.

(** ** Zero, scaling and sign *)





(** ** Totality and determinism *)




(** ** The format specification on a few values

    Ties go to the even neighbour, a negative value that rounds to zero
    keeps its sign, and the non-finite floats have their own spellings. *)

Example format_2f_ties :
  (format_2f (1 # 8), format_2f (3 # 8), format_2f (- (1 # 1000)),
   format_2f (123456 # 100))
  = ("0.12", "0.38", "-0.00", "1234.56")%string.
Proof. reflexivity. Qed.

Example format_2f_float :
  (format_2f (float_of_int 3), format_2f (S754_zero true),
   format_2f (S754_infinity true), format_2f S754_nan)
  = ("3.00", "-0.00", "-inf", "nan")%string.
Proof. vm_compute. reflexivity. Qed.

(** ** The zero dose in binary64

    With a finite glucose value the zero dose gives a (signed) zero, which
    Python compares equal to [0]; only the non-real operands, an infinity or
    a NaN, escape it. *)

Lemma estimate_homa_ir_zero_insulin_float (s : bool) (m : positive) (e : Z) :
  estimate_homa_ir (of_int 0) (S754_finite s m e : float) = Ok (S754_zero s).
Proof.
  rewrite (estimate_homa_ir_unfold divisors_nonzero_float).
  destruct s; reflexivity.
Qed.

Example estimate_homa_ir_zero_insulin_inf :
  estimate_homa_ir (of_int 0) (S754_infinity false : float) = Ok S754_nan.
Proof. vm_compute. reflexivity. Qed.

(** * Further properties of the estimator *)

(** ** The estimator as a bilinear map, in exact arithmetic *)

(** X1: the score is linear in the dose: a combination [a * d1 + b * d2] of
    two doses, at one glucose value, scores the same combination of the two
    scores. *)
Theorem estimate_homa_ir_linear_dose (a b d1 d2 g : Q) :
  exists v1 v2 : Q,
    estimate_homa_ir d1 g = Ok v1 /\
    estimate_homa_ir d2 g = Ok v2 /\
    returns (estimate_homa_ir (a * d1 + b * d2) g) (a * v1 + b * v2).
Proof.
  do 2 eexists. repeat (split; [apply estimate_homa_ir_Q |]).
  rewrite estimate_homa_ir_Q. simpl. field.
Qed.

(** X2: the score is linear in the glucose value as well. *)
Theorem estimate_homa_ir_linear_glucose (a b d g1 g2 : Q) :
  exists v1 v2 : Q,
    estimate_homa_ir d g1 = Ok v1 /\
    estimate_homa_ir d g2 = Ok v2 /\
    returns (estimate_homa_ir d (a * g1 + b * g2)) (a * v1 + b * v2).
Proof.
  do 2 eexists. repeat (split; [apply estimate_homa_ir_Q |]).
  rewrite estimate_homa_ir_Q. simpl. field.
Qed.

(** X3: the two arguments can be exchanged: the score depends on them
    through their product only, so a call with dose and glucose swapped
    returns the same score and nothing in the result tells the two apart. *)
Theorem estimate_homa_ir_swap (d g d' g' : Q) :
  d * g == d' * g' ->
  exists v : Q,
    estimate_homa_ir d g = Ok v /\
    returns (estimate_homa_ir g d) v /\
    returns (estimate_homa_ir d' g') v.
Proof.
  intros Hp. eexists. split; [apply estimate_homa_ir_Q |].
  split.
  - rewrite estimate_homa_ir_Q. simpl. field.
  - apply (returns_eq _ (25 * d' * g' / 21870)); [| apply estimate_homa_ir_closed].
    setoid_replace (25 * d' * g' / 21870) with (25 * (d' * g') / 21870) by field.
    rewrite <- Hp. field.
Qed.

Lemma estimate_homa_ir_swap_witness :
  20 * 140 == 140 * 20 /\
  exists v : Q,
    estimate_homa_ir 20 140 = Ok v /\
    returns (estimate_homa_ir 140 20) v /\
    returns (estimate_homa_ir 140 20) v.
Proof.
  assert (Hp : 20 * 140 == 140 * 20) by reflexivity.
  split; [exact Hp |].
  exact (estimate_homa_ir_swap 20 140 140 20 Hp).
Defined.

(** ** Order, sign and inversion, in exact arithmetic *)

Lemma estimate_homa_ir_value (d g : Q) :
  exists v : Q, estimate_homa_ir d g = Ok v /\ v * 21870 == 25 * (d * g).
Proof.
  eexists. split; [apply estimate_homa_ir_Q |]. field.
Qed.

(** X4: at a non-negative glucose value the score does not decrease when
    the dose grows, and at a positive one it grows strictly. *)
Theorem estimate_homa_ir_monotone_dose (d1 d2 g : Q) :
  0 <= g -> d1 <= d2 ->
  exists v1 v2 : Q,
    estimate_homa_ir d1 g = Ok v1 /\
    estimate_homa_ir d2 g = Ok v2 /\
    v1 <= v2 /\
    (0 < g -> d1 < d2 -> v1 < v2).
Proof.
  intros Hg Hd.
  destruct (estimate_homa_ir_value d1 g) as [v1 [E1 H1]].
  destruct (estimate_homa_ir_value d2 g) as [v2 [E2 H2]].
  exists v1, v2. repeat (split; [assumption |]).
  split; [nra | intros Hg' Hd'; nra].
Qed.

Lemma estimate_homa_ir_monotone_dose_witness :
  0 <= 140 /\ 20 <= 30 /\
  exists v1 v2 : Q,
    estimate_homa_ir 20 140 = Ok v1 /\
    estimate_homa_ir 30 140 = Ok v2 /\
    v1 <= v2 /\
    (0 < 140 -> 20 < 30 -> v1 < v2).
Proof.
  assert (Hg : 0 <= 140) by (unfold Qle; simpl; lia).
  assert (Hd : 20 <= 30) by (unfold Qle; simpl; lia).
  split; [exact Hg | split; [exact Hd |]].
  exact (estimate_homa_ir_monotone_dose 20 30 140 Hg Hd).
Defined.

(** X5: with a negative glucose value the order is reversed: a larger dose
    gives a smaller (more negative) score.  Nothing in the function guards
    against it. *)
Theorem estimate_homa_ir_antitone_negative_glucose (d1 d2 g : Q) :
  g < 0 -> d1 < d2 ->
  exists v1 v2 : Q,
    estimate_homa_ir d1 g = Ok v1 /\
    estimate_homa_ir d2 g = Ok v2 /\
    v2 < v1.
Proof.
  intros Hg Hd.
  destruct (estimate_homa_ir_value d1 g) as [v1 [E1 H1]].
  destruct (estimate_homa_ir_value d2 g) as [v2 [E2 H2]].
  exists v1, v2. repeat (split; [assumption |]). nra.
Qed.

Lemma estimate_homa_ir_antitone_negative_glucose_witness :
  - (140) < 0 /\ 20 < 30 /\
  exists v1 v2 : Q,
    estimate_homa_ir 20 (- (140)) = Ok v1 /\
    estimate_homa_ir 30 (- (140)) = Ok v2 /\
    v2 < v1.
Proof.
  assert (Hg : - (140) < 0) by (unfold Qlt; simpl; lia).
  assert (Hd : 20 < 30) by (unfold Qlt; simpl; lia).
  split; [exact Hg | split; [exact Hd |]].
  exact (estimate_homa_ir_antitone_negative_glucose 20 30 (- (140)) Hg Hd).
Defined.

(** X6: the sign of the score is the product of the signs of the inputs:
    it is zero exactly when an input is zero, positive exactly when both
    inputs have the same strict sign, negative exactly when they have
    opposite strict signs. *)
Theorem estimate_homa_ir_sign (d g : Q) :
  exists v : Q,
    estimate_homa_ir d g = Ok v /\
    (v == 0 <-> d == 0 \/ g == 0) /\
    (0 < v <-> (0 < d /\ 0 < g) \/ (d < 0 /\ g < 0)) /\
    (v < 0 <-> (0 < d /\ g < 0) \/ (d < 0 /\ 0 < g)).
Proof.
  destruct (estimate_homa_ir_value d g) as [v [E H]].
  exists v. split; [exact E |].
  assert (Hv : v == (5 # 4374) * (d * g)).
  { remember (d * g) as p. lra. }
  split; [| split].
  - split.
    + intros Hz. assert (Hp : d * g == 0) by (remember (d * g) as p; lra).
      apply Qmult_integral in Hp. exact Hp.
    + intros [Hz | Hz]; rewrite Hv, Hz; ring.
  - split.
    + intros Hpos. assert (Hp : 0 < d * g) by (remember (d * g) as p; lra).
      destruct (Q_dec d 0) as [[Hd | Hd] | Hd];
        destruct (Q_dec g 0) as [[Hg | Hg] | Hg];
        try (right; now split); try (left; now split); exfalso;
        try (rewrite Hd in Hp; lra); try (rewrite Hg in Hp; lra); nra.
    + intros [[Hd Hg] | [Hd Hg]]; nra.
  - split.
    + intros Hneg. assert (Hp : d * g < 0) by (remember (d * g) as p; lra).
      destruct (Q_dec d 0) as [[Hd | Hd] | Hd];
        destruct (Q_dec g 0) as [[Hg | Hg] | Hg];
        try (right; now split); try (left; now split); exfalso;
        try (rewrite Hd in Hp; lra); try (rewrite Hg in Hp; lra); nra.
    + intros [[Hd Hg] | [Hd Hg]]; nra.
Qed.

(** X7: at a glucose value that is not zero the dose can be read back from
    the score: the dose [874.8 * h / g] scores exactly [h], and two doses
    with the same score are the same dose. *)
Theorem estimate_homa_ir_invert_dose (g h d1 d2 : Q) :
  ~ g == 0 ->
  returns (estimate_homa_ir (874.8 * h / g) g) h /\
  (forall v1 v2 : Q,
      estimate_homa_ir d1 g = Ok v1 -> estimate_homa_ir d2 g = Ok v2 ->
      v1 == v2 -> d1 == d2).
Proof.
  intros Hg. split.
  - rewrite estimate_homa_ir_Q. simpl. field. exact Hg.
  - intros v1 v2 E1 E2 Hv.
    rewrite estimate_homa_ir_Q in E1, E2.
    injection E1 as <-. injection E2 as <-.
    assert (Hm : d1 * g == d2 * g).
    { setoid_replace (d1 * g)
        with (874.8 * ((((((d1 / 24) * 6 * 1000 / 60) / 1500) * 1000) / 6 * g) / 405))
        by field.
      rewrite Hv. field. }
    apply (Qmult_inj_r d1 d2 g Hg). exact Hm.
Qed.

Lemma estimate_homa_ir_invert_dose_witness :
  ~ 140 == 0 /\ returns (estimate_homa_ir (874.8 * 3.2 / 140) 140) 3.2.
Proof.
  assert (Hg : ~ 140 == 0) by (unfold Qeq; simpl; lia).
  split; [exact Hg |].
  exact (proj1 (estimate_homa_ir_invert_dose 140 3.2 0 0 Hg)).
Defined.

(** X8: a score reaches a level [t] exactly when the product of dose and
    glucose reaches [874.8 * t]; so the levels the notebook quotes (1.9 for
    early, 2.9 for established insulin resistance) are the products
    1662.12 and 2536.92. *)
Theorem estimate_homa_ir_level (d g : Q) :
  exists v : Q,
    estimate_homa_ir d g = Ok v /\
    (forall t : Q, t <= v <-> 874.8 * t <= d * g) /\
    (1.9 <= v <-> 1662.12 <= d * g) /\
    (2.9 <= v <-> 2536.92 <= d * g).
Proof.
  destruct (estimate_homa_ir_value d g) as [v [E H]].
  exists v. split; [exact E |].
  remember (d * g) as p.
  assert (Hv : v == (5 # 4374) * p) by lra.
  split; [| split].
  - intros t. split; intros Ht; lra.
  - split; intros Ht; lra.
  - split; intros Ht; lra.
Qed.

(** * The estimator on binary64 floats *)

(** ** Negation is exact *)





Lemma estimate_homa_ir_float (d g : float) :
  estimate_homa_ir d g = Ok (chained d g).
Proof. apply (estimate_homa_ir_unfold divisors_nonzero_float). Qed.


(** ** Special values *)

(** X10: a NaN in either argument comes out as a NaN, returned as a value:
    nothing is raised. *)
Theorem estimate_homa_ir_float_nan (x : float) :
  estimate_homa_ir S754_nan x = Ok S754_nan /\
  estimate_homa_ir x S754_nan = Ok S754_nan.
Proof.
  rewrite !estimate_homa_ir_float. split.
  - destruct x; reflexivity.
  - unfold chained. cbn [mul div Number_float].
    match goal with
    | |- context [SFmul _ _ ?a S754_nan] => destruct a; reflexivity
    end.
Qed.

(** X11: an infinite dose gives an infinite score whose sign is the product
    of the signs, for every glucose value that is finite and not zero or
    itself infinite; with a zero glucose value it gives NaN, not zero. *)
Theorem estimate_homa_ir_float_infinite_dose (s : bool) (g : float) :
  estimate_homa_ir (S754_infinity s) g =
  Ok match g with
     | S754_zero _ | S754_nan => S754_nan
     | S754_infinity sg | S754_finite sg _ _ => S754_infinity (xorb s sg)
     end.
Proof.
  rewrite estimate_homa_ir_float. f_equal.
  destruct g as [sg | sg | | sg mg eg], s; try destruct sg; reflexivity.
Qed.

(** X12: a zero dose gives a zero score (with the product of the signs) for
    every glucose value that is zero or finite, and NaN for an infinite
    one. *)
Theorem estimate_homa_ir_float_zero_dose (s : bool) (g : float) :
  estimate_homa_ir (S754_zero s) g =
  Ok match g with
     | S754_zero sg | S754_finite sg _ _ => S754_zero (xorb s sg)
     | S754_infinity _ | S754_nan => S754_nan
     end.
Proof.
  rewrite estimate_homa_ir_float. f_equal.
  destruct g as [sg | sg | | sg mg eg], s; try destruct sg; reflexivity.
Qed.

(** X13: a zero glucose value gives a zero score or NaN, nothing else, and
    NaN does happen for a finite dose: at [2^1023] the product by [6 * 1000]
    of step 2 overflows to infinity before the later divisions bring the
    value back, and infinity times zero is NaN. *)
Theorem estimate_homa_ir_float_zero_glucose :
  (forall (d : float) (s : bool), exists v : float,
      estimate_homa_ir d (S754_zero s) = Ok v /\
      (float_is_zero v = true \/ v = S754_nan)) /\
  float_to_Q float_2p1023 = Some (2 ^ 1023)%Q /\
  estimate_homa_ir float_2p1023 (S754_zero false) = Ok S754_nan.
Proof.
  split; [| split].
  - intros d s. eexists. split; [apply estimate_homa_ir_float |].
    unfold chained. cbn [mul div Number_float].
    match goal with
    | |- context [SFmul _ _ ?a (S754_zero s)] => destruct a as [sa | sa | | sa ma ea]
    end; [left | right | right | left]; reflexivity.
  - vm_compute. reflexivity.
  - vm_compute. reflexivity.
Qed.

(** * The printed value *)

(** ** Rounding *)

Lemma Qfloor_bounds (q : Q) :
  inject_Z (Qfloor q) <= q /\ q < inject_Z (Qfloor q) + 1.
Proof.
  split; [apply Qfloor_le |].
  pose proof (Qlt_floor q) as H. rewrite inject_Z_plus in H. exact H.
Qed.

Lemma round_half_even_dist (q : Q) :
  Qabs (inject_Z (round_half_even q) - q) <= 1 # 2 /\
  (Qabs (inject_Z (round_half_even q) - q) == 1 # 2 ->
   Z.even (round_half_even q) = true).
Proof.
  destruct (Qfloor_bounds q) as [Hlo Hhi].
  unfold round_half_even.
  destruct (Qcompare_spec (q - inject_Z (Qfloor q)) (1 # 2)) as [He | Hl | Hg].
  - destruct (Z.even (Qfloor q)) eqn:Hev.
    + split; [| intros _; exact Hev].
      apply Qabs_Qle_condition. split; lra.
    + split.
      * rewrite inject_Z_plus; change (inject_Z 1) with 1. apply Qabs_Qle_condition. split; lra.
      * intros _. rewrite Z.even_add, Hev. reflexivity.
  - split.
    + apply Qabs_Qle_condition. split; lra.
    + intros Ht. exfalso.
      rewrite Qabs_neg in Ht by lra. lra.
  - rewrite inject_Z_plus; change (inject_Z 1) with 1. split.
    + apply Qabs_Qle_condition. split; lra.
    + intros Ht. exfalso.
      rewrite Qabs_pos in Ht by lra. lra.
Qed.

(** X14: [round_half_even] returns an integer at distance at most one half
    from its argument, and when the distance is exactly one half (a tie) the
    integer returned is the even one. *)
Theorem round_half_even_nearest (q : Q) :
  Qabs (inject_Z (round_half_even q) - q) <= 1 # 2 /\
  (Qabs (inject_Z (round_half_even q) - q) == 1 # 2 ->
   Z.even (round_half_even q) = true).
Proof. exact (round_half_even_dist q). Qed.

Lemma round_half_even_comp (p q : Q) :
  p == q -> round_half_even p = round_half_even q.
Proof.
  intros H. unfold round_half_even.
  rewrite (Qfloor_comp _ _ H).
  assert (Hc : (p - inject_Z (Qfloor q) ?= 1 # 2) = (q - inject_Z (Qfloor q) ?= 1 # 2))
    by now rewrite H.
  now rewrite Hc.
Qed.

Lemma round_half_even_Z (n : Z) : round_half_even (inject_Z n) = n.
Proof.
  unfold round_half_even. rewrite Qfloor_Z.
  assert (Hc : (inject_Z n - inject_Z n ?= 1 # 2) = Lt).
  { apply Qlt_alt. setoid_replace (inject_Z n - inject_Z n) with 0 by ring.
    reflexivity. }
  now rewrite Hc.
Qed.

Lemma round2_error (q : Q) : Qabs (round2 q - q) <= 1 # 200.
Proof.
  unfold round2.
  destruct (round_half_even_dist (q * 100)) as [Hn _].
  apply Qabs_Qle_condition in Hn. destruct Hn as [Hn1 Hn2].
  remember (inject_Z (round_half_even (q * 100))) as r.
  apply Qabs_Qle_condition.
  split.
  - setoid_replace (r / 100 - q) with ((r - q * 100) * (1 # 100)) by field. lra.
  - setoid_replace (r / 100 - q) with ((r - q * 100) * (1 # 100)) by field. lra.
Qed.

(** X15: the value rounded to two decimal places lies within half a
    hundredth of the value, and a value that already is a whole number of
    hundredths is left as it is; so rounding twice is rounding once. *)
Theorem round2_nearest (q : Q) :
  Qabs (round2 q - q) <= 1 # 200 /\
  (forall n : Z, q == inject_Z n / 100 -> round2 q == q) /\
  round2 (round2 q) == round2 q.
Proof.
  assert (Hfix : forall (n : Z) (x : Q), x == inject_Z n / 100 -> round2 x == x).
  { intros n x Hx. unfold round2.
    rewrite (round_half_even_comp (x * 100) (inject_Z n)) by (rewrite Hx; field).
    rewrite round_half_even_Z. now rewrite Hx. }
  split; [| split].
  - apply round2_error.
  - intros n. apply Hfix.
  - apply (Hfix (round_half_even (q * 100))). reflexivity.
Qed.

(** ** The text printed *)

Lemma two_digits_spec (k : Z) :
  (0 <= k < 100)%Z ->
  two_digits k =
  String (digit_char (k / 10)) (String (digit_char (k mod 10)) "").
Proof.
  intros Hk.
  assert (H : forall n : nat, (n < 100)%nat ->
    two_digits (Z.of_nat n) =
    String (digit_char (Z.of_nat n / 10))
      (String (digit_char (Z.of_nat n mod 10)) "")).
  { intros n Hb.
    do 100 (destruct n as [| n]; [reflexivity |]).
    exfalso. lia. }
  rewrite <- (Z2Nat.id k) by lia. apply H. lia.
Qed.

Lemma digits_read (z : Z) :
  (0 <= z)%Z ->
  option_map (fun u => Z.of_N (N.of_uint u)) (NilZero.uint_of_string (digits z))
  = Some z.
Proof.
  intros Hz. unfold digits.
  rewrite NilZero.usu.
  - cbn [option_map]. rewrite DecimalN.Unsigned.of_to. f_equal. lia.
  - destruct (Z.to_N z) as [| p]; [discriminate |].
    apply DecimalPos.Unsigned.to_uint_nonnil.
Qed.

Lemma round_half_even_nonneg (q : Q) :
  0 <= q -> (0 <= round_half_even q)%Z.
Proof.
  intros Hq.
  assert (Hf : (0 <= Qfloor q)%Z).
  { change 0%Z with (Qfloor 0). now apply Qfloor_resp_le. }
  unfold round_half_even.
  destruct (q - inject_Z (Qfloor q) ?= 1 # 2); [destruct (Z.even _) | |]; lia.
Qed.

Lemma fixed2_spec (q : Q) :
  fixed2 q =
  (digits (round_half_even (q * 100) / 100)%Z ++ "." ++
   String (digit_char (round_half_even (q * 100) mod 100 / 10)%Z)
     (String (digit_char (round_half_even (q * 100) mod 10)%Z) ""))%string.
Proof.
  unfold fixed2. cbv zeta.
  rewrite two_digits_spec by (apply Z.mod_pos_bound; lia).
  replace ((round_half_even (q * 100) mod 100) mod 10)%Z
    with (round_half_even (q * 100) mod 10)%Z; [reflexivity |].
  symmetry. apply Z.mod_mod_divide. exists 10%Z. reflexivity.
Qed.

(** X16: whatever the value, the [.2f] text is an optional minus sign, the
    decimal digits of the whole part, a point, and exactly two decimal
    digits: those of the hundredths nearest to the magnitude (ties to
    even).  The whole part reads back as the number it prints. *)
Theorem format_2f_two_decimals (q : Q) :
  exists n : Z,
    n = round_half_even (Qabs q * 100) /\
    (0 <= n)%Z /\
    format_2f q =
      (match (q ?= 0)%Q with Lt => "-" | _ => "" end ++
       digits (n / 100)%Z ++ "." ++
       String (digit_char (n mod 100 / 10)%Z)
         (String (digit_char (n mod 10)%Z) ""))%string /\
    option_map (fun u => Z.of_N (N.of_uint u))
      (NilZero.uint_of_string (digits (n / 100))) = Some (n / 100)%Z.
Proof.
  exists (round_half_even (Qabs q * 100)).
  assert (Hn : (0 <= round_half_even (Qabs q * 100))%Z).
  { apply round_half_even_nonneg.
    apply Qmult_le_0_compat; [apply Qabs_nonneg | lra]. }
  split; [reflexivity |]. split; [exact Hn |]. split.
  - pose proof (fixed2_spec (Qabs q)) as Hfix.
    cbn [format_2f Format_Q].
    destruct (Qcompare_spec q 0) as [He | Hl | Hg].
    + rewrite <- Hfix. unfold fixed2.
      now rewrite (round_half_even_comp (q * 100) (Qabs q * 100))
        by (rewrite Qabs_pos by lra; reflexivity).
    + now rewrite <- Hfix.
    + rewrite <- Hfix. unfold fixed2.
      now rewrite (round_half_even_comp (q * 100) (Qabs q * 100))
        by (rewrite Qabs_pos by lra; reflexivity).
  - apply digits_read. apply Z.div_pos; lia.
Qed.

(** X17: the same for a finite binary64 float [(-1)^s * m * 2^e]: the text
    printed is the sign, the whole part, a point and exactly two decimal
    digits, taken from the hundredths nearest to the exact magnitude
    [m * 2^e], which the text misses by at most half a hundredth. *)
Theorem format_2f_float_two_decimals (s : bool) (m : positive) (e : Z) :
  exists n : Z,
    n = round_half_even (inject_Z (Z.pos m) * Qpower 2 e * 100) /\
    (0 <= n)%Z /\
    format_2f (S754_finite s m e : float) =
      ((if s then "-" else "") ++
       digits (n / 100)%Z ++ "." ++
       String (digit_char (n mod 100 / 10)%Z)
         (String (digit_char (n mod 10)%Z) ""))%string /\
    Qabs (inject_Z n / 100 - inject_Z (Z.pos m) * Qpower 2 e) <= 1 # 200.
Proof.
  set (a := inject_Z (Z.pos m) * Qpower 2 e).
  assert (Ha : 0 <= a).
  { apply Qmult_le_0_compat.
    - unfold Qle. simpl. lia.
    - apply Qpower_0_le. lra. }
  exists (round_half_even (a * 100)).
  split; [reflexivity |]. split; [| split].
  - apply round_half_even_nonneg. apply Qmult_le_0_compat; [exact Ha | lra].
  - cbn [format_2f Format_float]. fold a. rewrite fixed2_spec.
    now destruct s.
  - apply (round2_error a).
Qed.

(** * The example cell and the notebook's globals *)

Section NotebookFacts.

Context {A : Type} `{Number A} `{Format A}.

Lemma load_store_eq (name : string) (v : A) (g : list (string * A)) :
  load name (store name v g) = Some v.
Proof.
  induction g as [| [n w] g IH]; cbn [store load].
  - now rewrite String.eqb_refl.
  - destruct (String.eqb n name) eqn:E; cbn [load]; rewrite E; auto.
Qed.

Lemma load_store_ne (name other : string) (v : A) (g : list (string * A)) :
  name <> other -> load other (store name v g) = load other g.
Proof.
  intros Hne. induction g as [| [n w] g IH]; cbn [store load].
  - destruct (String.eqb_spec name other); [contradiction | reflexivity].
  - destruct (String.eqb_spec n name) as [-> | Hn]; cbn [load].
    + destruct (String.eqb_spec name other); [contradiction | reflexivity].
    + now rewrite IH.
Qed.

Lemma store_same (name : string) (v : A) (g : list (string * A)) :
  load name g = Some v -> store name v g = g.
Proof.
  induction g as [| [n w] g IH]; cbn [store load]; [discriminate |].
  destruct (String.eqb n name).
  - now intros [= ->].
  - intros Hl. now rewrite IH.
Qed.

Lemma example_cell_inv (s s' : session A) :
  example_cell s = Ok s' ->
  exists v : A,
    estimate_homa_ir (of_int 20) (of_int 140) = Ok v /\
    s' = print ("Estimated HOMA-IR: " ++ format_2f v)%string
           (assign "homa_ir_estimate" v
              (assign "fasting_glucose" (of_int 140)
                 (assign "total_daily_insulin" (of_int 20) s))).
Proof.
  unfold example_cell, call_estimate_homa_ir. cbv beta iota zeta.
  destruct (estimate_homa_ir (of_int 20) (of_int 140)) as [v | e];
    cbn [bind]; [| discriminate].
  intros [= <-]. now exists v.
Qed.

Lemma example_cell_bindings (s s' : session A) :
  example_cell s = Ok s' ->
  exists v : A,
    estimate_homa_ir (of_int 20) (of_int 140) = Ok v /\
    load "total_daily_insulin" (globals s') = Some (of_int 20) /\
    load "fasting_glucose" (globals s') = Some (of_int 140) /\
    load "homa_ir_estimate" (globals s') = Some v /\
    (forall name : string,
        name <> "total_daily_insulin" -> name <> "fasting_glucose" ->
        name <> "homa_ir_estimate" ->
        load name (globals s') = load name (globals s)) /\
    stdout s' = (stdout s ++ [("Estimated HOMA-IR: " ++ format_2f v)%string])%list.
Proof.
  intros Hrun. destruct (example_cell_inv s s' Hrun) as [v [Hv ->]].
  exists v. split; [exact Hv |]. cbn [globals stdout print assign].
  repeat split.
  - rewrite !load_store_ne by discriminate. apply load_store_eq.
  - rewrite load_store_ne by discriminate. apply load_store_eq.
  - apply load_store_eq.
  - intros name H1 H2 H3.
    now rewrite !load_store_ne by (intros E; symmetry in E; contradiction).
Qed.

End NotebookFacts.

(** X18: when the example cell finishes, the three names it assigns are
    bound to [20], [140] and the score, every other global reads as it did
    before (unbound names stay unbound), and stdout has grown by the one
    line that carries the score formatted with [.2f]. *)
Theorem example_cell_effect
    (A : Type) (N : Number A) (F : Format A) (s s' : session A) :
  example_cell s = Ok s' ->
  exists v : A,
    estimate_homa_ir (of_int 20) (of_int 140) = Ok v /\
    load "total_daily_insulin" (globals s') = Some (of_int 20) /\
    load "fasting_glucose" (globals s') = Some (of_int 140) /\
    load "homa_ir_estimate" (globals s') = Some v /\
    (forall name : string,
        name <> "total_daily_insulin" -> name <> "fasting_glucose" ->
        name <> "homa_ir_estimate" ->
        load name (globals s') = load name (globals s)) /\
    stdout s' = (stdout s ++ [("Estimated HOMA-IR: " ++ format_2f v)%string])%list.
Proof. apply example_cell_bindings. Qed.

Lemma example_cell_effect_witness :
  example_cell fresh = Ok session_after_example /\
  exists v : Q,
    estimate_homa_ir (of_int 20) (of_int 140) = Ok v /\
    load "total_daily_insulin" (globals session_after_example) = Some (of_int 20) /\
    load "fasting_glucose" (globals session_after_example) = Some (of_int 140) /\
    load "homa_ir_estimate" (globals session_after_example) = Some v /\
    (forall name : string,
        name <> "total_daily_insulin"%string -> name <> "fasting_glucose"%string ->
        name <> "homa_ir_estimate"%string ->
        load name (globals session_after_example) = load name (globals (@fresh Q))) /\
    stdout session_after_example =
      (stdout (@fresh Q) ++ [("Estimated HOMA-IR: " ++ format_2f v)%string])%list.
Proof.
  assert (Hrun : example_cell fresh = Ok session_after_example) by reflexivity.
  split; [exact Hrun |].
  exact (example_cell_effect Q Number_Q Format_Q fresh session_after_example Hrun).
Defined.

Lemma example_cell_twice
    (A : Type) (N : Number A) (F : Format A) (s s1 s2 : session A) :
  example_cell s = Ok s1 -> example_cell s1 = Ok s2 ->
  globals s2 = globals s1 /\
  exists line : string,
    stdout s1 = (stdout s ++ [line])%list /\
    stdout s2 = (stdout s ++ [line; line])%list.
Proof.
  intros H1 H2.
  destruct (example_cell_bindings s s1 H1) as [v [Hv [L1 [L2 [L3 [_ Ho1]]]]]].
  destruct (example_cell_inv s1 s2 H2) as [v' [Hv' ->]].
  rewrite Hv in Hv'. injection Hv' as <-.
  cbn [globals stdout print assign]. split.
  - rewrite (store_same _ _ _ L1), (store_same _ _ _ L2).
    apply store_same, L3.
  - eexists. split; [exact Ho1 |].
    rewrite Ho1, <- app_assoc. reflexivity.
Qed.

(** X19: running the example cell a second time changes no global: the
    three names keep the values of the first run, and the only effect is the
    same line printed once more. *)
Theorem example_cell_idempotent
    (A : Type) (N : Number A) (F : Format A) (s s1 s2 : session A) :
  example_cell s = Ok s1 -> example_cell s1 = Ok s2 ->
  globals s2 = globals s1 /\
  exists line : string,
    stdout s1 = (stdout s ++ [line])%list /\
    stdout s2 = (stdout s ++ [line; line])%list.
Proof. apply example_cell_twice. Qed.

Lemma example_cell_idempotent_witness :
  example_cell fresh = Ok session_after_example /\
  example_cell session_after_example = Ok session_after_rerun /\
  globals session_after_rerun = globals session_after_example /\
  exists line : string,
    stdout session_after_example = (stdout (@fresh Q) ++ [line])%list /\
    stdout session_after_rerun = (stdout (@fresh Q) ++ [line; line])%list.
Proof.
  assert (H1 : example_cell fresh = Ok session_after_example) by reflexivity.
  assert (H2 : example_cell session_after_example = Ok session_after_rerun)
    by reflexivity.
  split; [exact H1 | split; [exact H2 |]].
  exact (example_cell_idempotent Q Number_Q Format_Q
           fresh session_after_example session_after_rerun H1 H2).
Defined.

(** * The function on Python's ints and floats *)

Lemma Py_truediv_float_literal (x : float) (n : Z) :
  Py.finite_or_overflow (float_of_int n) = Py.Returns (float_of_int n) ->
  float_is_zero (float_of_int n) = false ->
  Py.truediv (Py.Float x) (Py.Int n) =
  Py.Returns (Py.Float (SFdiv prec emax x (float_of_int n))).
Proof.
  intros Hfin Hnz. unfold Py.truediv, Py.as_float. cbn [Py.bind].
  rewrite Hfin. cbn [Py.bind]. now rewrite Hnz.
Qed.

Lemma Py_mul_float_literal (x : float) (n : Z) :
  Py.finite_or_overflow (float_of_int n) = Py.Returns (float_of_int n) ->
  Py.mul (Py.Float x) (Py.Int n) =
  Py.Returns (Py.Float (SFmul prec emax x (float_of_int n))).
Proof.
  intros Hfin. unfold Py.mul, Py.as_float. cbn [Py.bind].
  now rewrite Hfin.
Qed.

(** Steps 2 to 5 once step 1 has given a float: they cannot fail before the
    glucose value is used. *)
Lemma Py_estimate_after_step_1 (d : Py.value) (g : Py.value) (r1 : float) :
  Py.truediv d (Py.Int 24) = Py.Returns (Py.Float r1) ->
  Py.estimate_homa_ir d g =
  Py.bind (Py.as_float g) (fun y =>
    Py.Returns (Py.Float
      (SFdiv prec emax
         (SFmul prec emax
            (SFdiv prec emax
               (SFmul prec emax
                  (SFdiv prec emax
                     (SFdiv prec emax
                        (SFmul prec emax
                           (SFmul prec emax r1 (float_of_int 6))
                           (float_of_int 1000))
                        (float_of_int 60))
                     (float_of_int 1500))
                  (float_of_int 1000))
               (float_of_int 6))
            y)
         (float_of_int 405)))).
Proof.
  intros H1. unfold Py.estimate_homa_ir. rewrite H1. cbn [Py.bind].
  repeat (first
    [ rewrite Py_mul_float_literal by reflexivity
    | rewrite Py_truediv_float_literal by reflexivity ];
    cbn [Py.bind]).
  destruct g as [n | y].
  - unfold Py.mul, Py.as_float. cbn [Py.bind].
    destruct (Py.finite_or_overflow (float_of_int n)) as [y | e];
      cbn [Py.bind]; [| reflexivity].
    now rewrite Py_truediv_float_literal by reflexivity.
  - unfold Py.mul, Py.as_float. cbn [Py.bind].
    now rewrite Py_truediv_float_literal by reflexivity.
Qed.

Lemma Py_truediv_float_24 (d : float) :
  Py.truediv (Py.Float d) (Py.Int 24) =
  Py.Returns (Py.Float (SFdiv prec emax d (float_of_int 24))).
Proof. now apply Py_truediv_float_literal. Qed.

Lemma Py_estimate_float_dose (d : float) (g : Py.value) :
  Py.estimate_homa_ir (Py.Float d) g =
  Py.bind (Py.as_float g) (fun y => Py.Returns (Py.Float (chained d y))).
Proof.
  rewrite (Py_estimate_after_step_1 _ g _ (Py_truediv_float_24 d)).
  reflexivity.
Qed.

(** X20: called with two floats, the function on Python's numbers returns
    the float that the binary64 reading of the five steps returns: it never
    raises, and all that is proved of the one holds of the other. *)
Theorem Py_estimate_homa_ir_floats (d g : float) :
  exists v : float,
    estimate_homa_ir d g = Ok v /\
    Py.estimate_homa_ir (Py.Float d) (Py.Float g) = Py.Returns (Py.Float v).
Proof.
  exists (chained d g). split; [apply estimate_homa_ir_float |].
  now rewrite Py_estimate_float_dose.
Qed.

(** X21: called with a float dose and an [int] glucose value, the function
    converts the [int] at step 5: it raises [OverflowError] when the
    conversion overflows, whatever the dose (a NaN included), and otherwise
    returns what the converted value gives.  [2^1024] is such an [int]. *)
Theorem Py_estimate_homa_ir_int_glucose :
  (forall (d : float) (n : Z),
      Py.estimate_homa_ir (Py.Float d) (Py.Int n) =
      match float_of_int n with
      | S754_infinity _ => Py.Raises Py.OverflowError
      | y => Py.Returns (Py.Float (chained d y))
      end) /\
  (forall d : float,
      Py.estimate_homa_ir (Py.Float d) (Py.Int (2 ^ 1024)) =
      Py.Raises Py.OverflowError).
Proof.
  assert (H : forall (d : float) (n : Z),
      Py.estimate_homa_ir (Py.Float d) (Py.Int n) =
      match float_of_int n with
      | S754_infinity _ => Py.Raises Py.OverflowError
      | y => Py.Returns (Py.Float (chained d y))
      end).
  { intros d n. rewrite Py_estimate_float_dose.
    unfold Py.as_float, Py.finite_or_overflow.
    now destruct (float_of_int n). }
  split; [exact H |].
  intros d. rewrite H. reflexivity.
Qed.

Lemma Py_finite_or_overflow_raises (x : float) (e : Py.exn) :
  Py.finite_or_overflow x = Py.Raises e -> e = Py.OverflowError.
Proof. destruct x; cbn; congruence. Qed.

Lemma Py_as_float_raises (v : Py.value) (e : Py.exn) :
  Py.as_float v = Py.Raises e -> e = Py.OverflowError.
Proof.
  destruct v as [n | x]; cbn [Py.as_float]; [| discriminate].
  apply Py_finite_or_overflow_raises.
Qed.

Lemma Py_estimate_outcome (d g : Py.value) :
  Py.estimate_homa_ir d g = Py.Raises Py.OverflowError \/
  exists x : float, Py.estimate_homa_ir d g = Py.Returns (Py.Float x).
Proof.
  assert (Hrest : forall r1 : float,
      Py.truediv d (Py.Int 24) = Py.Returns (Py.Float r1) ->
      Py.estimate_homa_ir d g = Py.Raises Py.OverflowError \/
      exists x : float, Py.estimate_homa_ir d g = Py.Returns (Py.Float x)).
  { intros r1 H1. rewrite (Py_estimate_after_step_1 d g r1 H1).
    destruct (Py.as_float g) as [y | e] eqn:Hg; cbn [Py.bind].
    - right. eexists. reflexivity.
    - left. now rewrite (Py_as_float_raises g e Hg). }
  destruct d as [m | x].
  - destruct (Py.finite_or_overflow (Py.int_quotient m 24)) as [r1 | e] eqn:Hq.
    + apply (Hrest r1). cbn [Py.truediv Z.eqb]. now rewrite Hq.
    + left. unfold Py.estimate_homa_ir. cbn [Py.truediv Z.eqb].
      rewrite Hq. cbn [Py.bind].
      now rewrite (Py_finite_or_overflow_raises _ e Hq).
  - apply (Hrest _ (Py_truediv_float_24 x)).
Qed.

(** X22: whatever the two arguments, [int] or [float], the call either
    returns a [float] or raises [OverflowError]: it never raises
    [ZeroDivisionError] and never returns an [int]. *)
Theorem Py_estimate_homa_ir_outcomes (d g : Py.value) :
  Py.estimate_homa_ir d g <> Py.Raises Py.ZeroDivisionError /\
  (forall n : Z, Py.estimate_homa_ir d g <> Py.Returns (Py.Int n)) /\
  (Py.estimate_homa_ir d g = Py.Raises Py.OverflowError \/
   exists x : float, Py.estimate_homa_ir d g = Py.Returns (Py.Float x)).
Proof.
  destruct (Py_estimate_outcome d g) as [H | [x H]]; rewrite H;
    repeat split; try discriminate; [now left | right; now exists x].
Qed.

(** The example cell's own call, on the ints [20] and [140]. *)
Example Py_estimate_20_140 :
  Py.estimate_homa_ir (Py.Int 20) (Py.Int 140) =
  Py.Returns (Py.Float (S754_finite false 7207406811063893 (-51))).
Proof. vm_compute. reflexivity. Qed.

(** * Int arguments: when they change nothing, when they overflow *)

Local Open Scope Z_scope.

(** ** The size of a mantissa and the shifts of the rounding *)

Lemma digits2_pos_size (p : positive) : digits2_pos p = Pos.size p.
Proof. induction p; simpl; congruence. Qed.

Lemma size_bounds (p : positive) :
  2 ^ (Z.pos (Pos.size p) - 1) <= Z.pos p < 2 ^ Z.pos (Pos.size p).
Proof.
  induction p as [p IH | p IH |].
  - cbn [Pos.size]. rewrite Pos2Z.inj_succ.
    replace (Z.succ (Z.pos (Pos.size p)) - 1) with (Z.succ (Z.pos (Pos.size p) - 1)) by lia.
    rewrite !Z.pow_succ_r by lia. lia.
  - cbn [Pos.size]. rewrite Pos2Z.inj_succ.
    replace (Z.succ (Z.pos (Pos.size p)) - 1) with (Z.succ (Z.pos (Pos.size p) - 1)) by lia.
    rewrite !Z.pow_succ_r by lia. lia.
  - cbn. lia.
Qed.

Lemma Zdigits2_le (z n : Z) : 0 <= z < 2 ^ n -> 0 <= n -> Zdigits2 z <= n.
Proof.
  intros [H0 Hn] Hnn. destruct z as [| p | p]; cbn [Zdigits2]; [lia | | lia].
  rewrite digits2_pos_size.
  destruct (size_bounds p) as [Hlo _].
  destruct (Z_lt_le_dec n (Z.pos (Pos.size p))) as [Hlt | Hle]; [| exact Hle].
  exfalso.
  assert (2 ^ n <= 2 ^ (Z.pos (Pos.size p) - 1)) by (apply Z.pow_le_mono_r; lia).
  lia.
Qed.

Lemma iter_xO (p : positive) (d : positive) :
  Z.pos (Pos.iter xO p d) = Z.pos p * 2 ^ Z.pos d.
Proof.
  induction d using Pos.peano_ind.
  - cbn. lia.
  - rewrite Pos.iter_succ, Pos2Z.inj_xO, IHd, Pos2Z.inj_succ, Z.pow_succ_r by lia.
    lia.
Qed.

Lemma size_iter_xO (p d : positive) :
  Pos.size (Pos.iter xO p d) = (Pos.size p + d)%positive.
Proof.
  revert p. induction d using Pos.peano_ind; intros p.
  - cbn. lia.
  - rewrite Pos.iter_succ. cbn [Pos.size]. rewrite IHd. lia.
Qed.

Lemma shr_1_m (mrs : shr_record) :
  0 <= shr_m mrs -> shr_m (shr_1 mrs) = shr_m mrs / 2.
Proof.
  destruct mrs as [m r s]. cbn [shr_m]. intros Hm.
  destruct m as [| [p | p |] | p].
  - reflexivity.
  - cbn [shr_1 shr_m]. rewrite Pos2Z.inj_xI. apply Z.div_unique with (r := 1); lia.
  - cbn [shr_1 shr_m]. rewrite Pos2Z.inj_xO. apply Z.div_unique with (r := 0); lia.
  - reflexivity.
  - lia.
Qed.

Lemma iter_shr_1_m (n : positive) (mrs : shr_record) :
  0 <= shr_m mrs ->
  0 <= shr_m (iter_pos shr_1 n mrs) <= shr_m mrs.
Proof.
  revert mrs. induction n as [n IH | n IH |]; intros mrs Hm; cbn [iter_pos].
  - assert (H1 : 0 <= shr_m (shr_1 mrs) <= shr_m mrs).
    { rewrite shr_1_m by assumption. split; [apply Z.div_pos; lia |].
      apply Z.div_le_upper_bound; lia. }
    pose proof (IH (shr_1 mrs) (proj1 H1)) as H2.
    pose proof (IH _ (proj1 H2)) as H3. lia.
  - pose proof (IH mrs Hm) as H2.
    pose proof (IH _ (proj1 H2)) as H3. lia.
  - rewrite shr_1_m by assumption. split; [apply Z.div_pos; lia |].
    apply Z.div_le_upper_bound; lia.
Qed.

Lemma fexp_small (e : Z) : -1021 <= e -> fexp prec emax e = e - 53.
Proof. intros He. unfold fexp, emin, prec, emax. lia. Qed.

Lemma binary_round_aux_exact (s : bool) (mz : positive) (ez : Z) :
  Pos.size mz = 53%positive -> -1074 <= ez <= 971 ->
  binary_round_aux prec emax s (Z.pos mz) ez loc_Exact = S754_finite s mz ez.
Proof.
  intros Hsz He.
  assert (Hshr : shr_fexp prec emax (Z.pos mz) ez loc_Exact
                 = (Build_shr_record (Z.pos mz) false false, ez)).
  { unfold shr_fexp. cbn [Zdigits2]. rewrite digits2_pos_size, Hsz.
    rewrite fexp_small by lia.
    replace (53 + ez - 53 - ez) with 0 by lia. reflexivity. }
  unfold binary_round_aux. rewrite Hshr.
  cbn [shr_m loc_of_shr_record round_nearest_even].
  rewrite Hshr. cbn [shr_m].
  replace (ez <=? emax - prec) with true; [reflexivity |].
  symmetry. apply Z.leb_le. unfold emax, prec. lia.
Qed.

Lemma float_of_pos_small (s : bool) (p : positive) :
  (Pos.size p <= 53)%positive ->
  exists (mz : positive) (ez : Z),
    binary_round prec emax s p 0 = S754_finite s mz ez /\
    Pos.size mz = 53%positive /\
    ez = Z.pos (Pos.size p) - 53 /\
    Z.pos mz = Z.pos p * 2 ^ (- ez).
Proof.
  intros Hsz. unfold binary_round.
  rewrite digits2_pos_size, fexp_small by lia.
  unfold shl_align.
  destruct (Z.pos (Pos.size p) + 0 - 53 - 0) as [| d | d] eqn:Hd; [| lia |].
  - exists p, 0. rewrite binary_round_aux_exact by lia.
    repeat split; try lia.
  - exists (Pos.iter xO p d), (Z.pos (Pos.size p) + 0 - 53).
    rewrite binary_round_aux_exact.
    + repeat split; try lia.
      * rewrite size_iter_xO. lia.
      * rewrite iter_xO. f_equal. f_equal. lia.
    + rewrite size_iter_xO. lia.
    + lia.
Qed.

Lemma div_eucl_pair (a b : Z) : Z.div_eucl a b = (a / b, a mod b).
Proof. unfold Z.div, Z.modulo. now destruct (Z.div_eucl a b). Qed.

Lemma new_location_scale (r : Z) :
  new_location (24 * 2 ^ 48) (r * 2 ^ 48) = new_location 24 r.
Proof.
  unfold new_location.
  replace (Z.even (24 * 2 ^ 48)) with true by reflexivity.
  replace (Z.even 24) with true by reflexivity.
  unfold new_location_even.
  destruct (Z.eqb_spec r 0) as [-> | Hr].
  - reflexivity.
  - destruct (Z.eqb_spec (r * 2 ^ 48) 0) as [H0 | _]; [lia |].
    f_equal. rewrite Z.mul_assoc. symmetry. apply Zmult_compare_compat_r. lia.
Qed.

Lemma div_core_rescale (p mz : positive) (ez : Z) :
  (Pos.size p <= 53)%positive ->
  Pos.size mz = 53%positive ->
  ez = Z.pos (Pos.size p) - 53 ->
  Z.pos mz = Z.pos p * 2 ^ (- ez) ->
  SFdiv_core_binary prec emax (Z.pos mz) ez (Z.pos 6755399441055744) (-48) =
  SFdiv_core_binary prec emax (Z.pos p) 0 24 0.
Proof.
  intros Hp Hmz Hez Hval.
  unfold SFdiv_core_binary. cbn [Zdigits2].
  change IntDef.Z.min with Z.min.
  change IntDef.Z.div_eucl with Z.div_eucl.
  change IntDef.Z.shiftl with Z.shiftl.
  rewrite (digits2_pos_size mz), (digits2_pos_size p), Hmz.
  replace (digits2_pos 6755399441055744) with 53%positive by reflexivity.
  replace (digits2_pos 24) with 5%positive by reflexivity.
  set (sz := Z.pos (Pos.size p)) in *.
  assert (Hsz : 1 <= sz <= 53) by (unfold sz; lia).
  rewrite !fexp_small by lia.
  replace (Z.min (53 + ez - (53 + -48) - 53) (ez - -48)) with (sz - 58) by lia.
  replace (Z.min (sz + 0 - (5 + 0) - 53) (0 - 0)) with (sz - 58) by lia.
  replace (ez - -48 - (sz - 58)) with 53 by lia.
  replace (0 - 0 - (sz - 58)) with (58 - sz) by lia.
  destruct (58 - sz) as [| k | k] eqn:Hk; [lia | | lia].
  rewrite !Z.shiftl_mul_pow2 by lia.
  rewrite !div_eucl_pair.
  set (N := Z.pos p * 2 ^ Z.pos k).
  assert (HN : Z.pos mz * 2 ^ 53 = N * 2 ^ 48).
  { unfold N. rewrite Hval. replace (- ez) with (53 - sz) by lia.
    rewrite <- Hk. replace (58 - sz) with ((53 - sz) + 5) by lia.
    rewrite Z.pow_add_r by lia. lia. }
  rewrite HN.
  change (Z.pos 6755399441055744) with (24 * 2 ^ 48).
  rewrite Z.div_mul_cancel_r by lia.
  rewrite Z.mul_mod_distr_r by lia.
  now rewrite new_location_scale.
Qed.

Lemma shr_record_of_loc_m (m : Z) (l : location) :
  shr_m (shr_record_of_loc m l) = m.
Proof. destruct l as [| []]; reflexivity. Qed.

Lemma shr_bounds (mrs : shr_record) (e n : Z) :
  0 <= shr_m mrs ->
  0 <= shr_m (fst (shr mrs e n)) <= shr_m mrs /\
  (snd (shr mrs e n) = e \/ (0 < n /\ snd (shr mrs e n) = e + n)).
Proof.
  intros Hm. unfold shr. destruct n as [| k | k]; cbn [fst snd].
  - split; [lia | now left].
  - split; [apply iter_shr_1_m; exact Hm | right; split; [lia | reflexivity]].
  - split; [lia | now left].
Qed.

Lemma fexp_le (x b : Z) : x <= b -> -1021 <= b -> fexp prec emax x <= b - 53.
Proof. unfold fexp, emin, prec, emax. lia. Qed.

Lemma round_nearest_even_bounds (m : Z) (l : location) :
  m <= round_nearest_even m l <= m + 1.
Proof.
  destruct l as [| []]; cbn [round_nearest_even]; try lia.
  destruct (Z.even m); lia.
Qed.

Lemma binary_round_aux_not_infinity (s s' : bool) (q e : Z) (l : location) :
  0 <= q < 2 ^ 54 -> -1000 <= e <= 0 ->
  binary_round_aux prec emax s q e l <> S754_infinity s'.
Proof.
  intros Hq He. unfold binary_round_aux, shr_fexp.
  pose proof (shr_bounds (shr_record_of_loc q l) e
                (fexp prec emax (Zdigits2 q + e) - e)) as H1.
  rewrite shr_record_of_loc_m in H1. specialize (H1 (proj1 Hq)).
  destruct (shr (shr_record_of_loc q l) e (fexp prec emax (Zdigits2 q + e) - e))
    as [mrs1 e1]. cbn [fst snd] in H1. destruct H1 as [Hm1 He1].
  assert (Hd1 : Zdigits2 q <= 54) by (apply Zdigits2_le; lia).
  assert (Hf1 : fexp prec emax (Zdigits2 q + e) <= 1)
    by (apply (fexp_le _ 54); lia).
  assert (He1' : -1000 <= e1 <= 1) by lia.
  set (r := round_nearest_even (shr_m mrs1) (loc_of_shr_record mrs1)).
  pose proof (round_nearest_even_bounds (shr_m mrs1) (loc_of_shr_record mrs1)) as Hr.
  fold r in Hr.
  assert (Hr' : 0 <= r < 2 ^ 55) by (change (2 ^ 55) with (2 * 2 ^ 54); lia).
  pose proof (shr_bounds (shr_record_of_loc r loc_Exact) e1
                (fexp prec emax (Zdigits2 r + e1) - e1)) as H2.
  rewrite shr_record_of_loc_m in H2. specialize (H2 (proj1 Hr')).
  destruct (shr (shr_record_of_loc r loc_Exact) e1
              (fexp prec emax (Zdigits2 r + e1) - e1)) as [mrs2 e2].
  cbn [fst snd] in H2. destruct H2 as [Hm2 He2].
  assert (Hd2 : Zdigits2 r <= 55) by (apply Zdigits2_le; lia).
  assert (Hf2 : fexp prec emax (Zdigits2 r + e1) <= 3)
    by (apply (fexp_le _ 56); lia).
  assert (He2' : e2 <= 971) by lia.
  destruct (shr_m mrs2) as [| m2 | m2]; try discriminate.
  replace (e2 <=? emax - prec) with true; [discriminate |].
  symmetry. apply Z.leb_le. unfold emax, prec. lia.
Qed.

Lemma div_core_raw (p : positive) :
  (Pos.size p <= 53)%positive ->
  exists q l : _,
    SFdiv_core_binary prec emax (Z.pos p) 0 24 0 =
      (q, Z.pos (Pos.size p) - 58, l) /\
    0 <= q < 2 ^ 54.
Proof.
  intros Hp.
  unfold SFdiv_core_binary. cbn [Zdigits2].
  change IntDef.Z.min with Z.min.
  change IntDef.Z.div_eucl with Z.div_eucl.
  change IntDef.Z.shiftl with Z.shiftl.
  rewrite (digits2_pos_size p).
  replace (digits2_pos 24) with 5%positive by reflexivity.
  pose proof (size_bounds p) as Hb.
  set (sz := Z.pos (Pos.size p)) in *.
  assert (Hsz : 1 <= sz <= 53) by (unfold sz; lia).
  rewrite !fexp_small by lia.
  replace (Z.min (sz + 0 - (5 + 0) - 53) (0 - 0)) with (sz - 58) by lia.
  replace (0 - 0 - (sz - 58)) with (58 - sz) by lia.
  destruct (58 - sz) as [| k | k] eqn:Hk; [lia | | lia].
  rewrite Z.shiftl_mul_pow2 by lia.
  rewrite div_eucl_pair.
  eexists. eexists. split; [reflexivity |].
  assert (HN : 0 <= Z.pos p * 2 ^ Z.pos k < 2 ^ 58).
  { split; [lia |].
    replace 58 with (sz + Z.pos k) by lia. rewrite Z.pow_add_r by lia.
    apply Z.mul_lt_mono_pos_r; [lia | apply Hb]. }
  split.
  - apply Z.div_pos; lia.
  - apply Z.div_lt_upper_bound; [lia |].
    change (2 ^ 54) with 18014398509481984. change (2 ^ 58) with 288230376151711744 in HN. lia.
Qed.

Lemma int_quotient_24_small (m : Z) :
  Z.abs m < 2 ^ 53 ->
  Py.int_quotient m 24 = SFdiv prec emax (float_of_int m) (float_of_int 24) /\
  Py.finite_or_overflow (Py.int_quotient m 24) = Py.Returns (Py.int_quotient m 24).
Proof.
  intros Hm.
  assert (Hpos : forall (s : bool) (p : positive),
    Z.pos p < 2 ^ 53 ->
    let x := (let '(q, e, l) := SFdiv_core_binary prec emax (Z.pos p) 0 24 0 in
              binary_round_aux prec emax s q e l) in
    x = SFdiv prec emax (binary_round prec emax s p 0) (float_of_int 24) /\
    Py.finite_or_overflow x = Py.Returns x).
  { intros s p Hp.
    assert (Hsz : (Pos.size p <= 53)%positive).
    { pose proof (size_bounds p) as [Hlo _].
      destruct (Z_lt_le_dec 53 (Z.pos (Pos.size p))) as [Hgt | Hle]; [| lia].
      exfalso.
      assert (2 ^ 53 <= 2 ^ (Z.pos (Pos.size p) - 1)) by (apply Z.pow_le_mono_r; lia).
      lia. }
    destruct (float_of_pos_small s p Hsz) as [mz [ez [Hf [Hmz [Hez Hval]]]]].
    destruct (div_core_raw p Hsz) as [q [l [Hcore Hq]]].
    cbv zeta. rewrite Hf.
    change (float_of_int 24) with (S754_finite false 6755399441055744 (-48)).
    cbn [SFdiv]. rewrite (div_core_rescale p mz ez Hsz Hmz Hez Hval), Hcore.
    replace (xorb s false) with s by now destruct s.
    split; [reflexivity |].
    pose proof (binary_round_aux_not_infinity s) as Hni.
    destruct (binary_round_aux prec emax s q (Z.pos (Pos.size p) - 58) l) eqn:E;
      try reflexivity.
    exfalso. apply (Hni s0 q (Z.pos (Pos.size p) - 58) l); [exact Hq | lia | exact E]. }
  destruct m as [| p | p].
  - split; reflexivity.
  - apply (Hpos false p). lia.
  - apply (Hpos true p). lia.
Qed.

Lemma iter_shr_1_value (n : positive) (mrs : shr_record) :
  0 <= shr_m mrs ->
  shr_m (iter_pos shr_1 n mrs) = shr_m mrs / 2 ^ Z.pos n.
Proof.
  revert mrs. induction n as [n IH | n IH |]; intros mrs Hm; cbn [iter_pos].
  - assert (H1 : 0 <= shr_m (shr_1 mrs))
      by (rewrite shr_1_m by assumption; apply Z.div_pos; lia).
    assert (H2 : 0 <= shr_m (iter_pos shr_1 n (shr_1 mrs)))
      by (apply iter_shr_1_m; exact H1).
    rewrite (IH _ H2), (IH _ H1), shr_1_m by assumption.
    rewrite !Z.div_div by lia. f_equal.
    rewrite Pos2Z.inj_xI.
    replace (2 * Z.pos n + 1) with (1 + Z.pos n + Z.pos n) by lia.
    rewrite !Z.pow_add_r by lia. lia.
  - assert (H2 : 0 <= shr_m (iter_pos shr_1 n mrs))
      by (apply iter_shr_1_m; exact Hm).
    rewrite (IH _ H2), (IH _ Hm).
    rewrite !Z.div_div by lia. f_equal.
    replace (Z.pos n~0) with (Z.pos n + Z.pos n) by lia.
    now rewrite Z.pow_add_r by lia.
  - rewrite shr_1_m by assumption. reflexivity.
Qed.

Lemma shr_value (mrs : shr_record) (e n : Z) :
  0 <= shr_m mrs -> 0 <= n ->
  shr_m (fst (shr mrs e n)) = shr_m mrs / 2 ^ n /\ snd (shr mrs e n) = e + n.
Proof.
  intros Hm Hn. unfold shr. destruct n as [| k | k]; cbn [fst snd].
  - rewrite Z.div_1_r. split; lia.
  - split; [apply iter_shr_1_value; exact Hm | reflexivity].
  - lia.
Qed.

Lemma Zdigits2_ge (z k : Z) : 2 ^ (k - 1) <= z -> 1 <= k -> k <= Zdigits2 z.
Proof.
  intros Hz Hk.
  assert (Hp : 0 < 2 ^ (k - 1)) by (apply Z.pow_pos_nonneg; lia).
  destruct z as [| p | p]; [lia | | lia].
  cbn [Zdigits2]. rewrite digits2_pos_size.
  destruct (size_bounds p) as [_ Hhi].
  destruct (Z_lt_le_dec (Z.pos (Pos.size p)) k) as [Hlt | Hle]; [| exact Hle].
  exfalso.
  assert (2 ^ Z.pos (Pos.size p) <= 2 ^ (k - 1)) by (apply Z.pow_le_mono_r; lia).
  lia.
Qed.

Lemma Zdigits2_bounds (z : Z) :
  0 < z -> 2 ^ (Zdigits2 z - 1) <= z < 2 ^ Zdigits2 z.
Proof.
  intros Hz. destruct z as [| p | p]; [lia | | lia].
  cbn [Zdigits2]. rewrite digits2_pos_size. apply size_bounds.
Qed.

Lemma binary_round_aux_overflow (s : bool) (q : Z) (l : location) :
  2 ^ 1024 <= q ->
  binary_round_aux prec emax s q 0 l = S754_infinity s.
Proof.
  intros Hq.
  assert (Hq0 : 0 < q) by (assert (0 < 2 ^ 1024) by (apply Z.pow_pos_nonneg; lia); lia).
  unfold binary_round_aux, shr_fexp.
  pose proof (Zdigits2_ge q 1025 ltac:(exact Hq) ltac:(lia)) as Hdq.
  pose proof (Zdigits2_bounds q Hq0) as Hqb.
  set (dq := Zdigits2 q) in *.
  rewrite (fexp_small (dq + 0)) by lia.
  pose proof (shr_value (shr_record_of_loc q l) 0 (dq + 0 - 53 - 0)) as H1.
  rewrite shr_record_of_loc_m in H1. specialize (H1 ltac:(lia) ltac:(lia)).
  destruct (shr (shr_record_of_loc q l) 0 (dq + 0 - 53 - 0)) as [mrs1 e1].
  cbn [fst snd] in H1. destruct H1 as [Hm1 He1].
  assert (Hm1b : 2 ^ 52 <= shr_m mrs1 < 2 ^ 53).
  { rewrite Hm1. replace (dq + 0 - 53 - 0) with (dq - 53) by lia. split.
    - apply Z.div_le_lower_bound; [apply Z.pow_pos_nonneg; lia |].
      rewrite <- Z.pow_add_r by lia. replace (dq - 53 + 52) with (dq - 1) by lia.
      apply Hqb.
    - apply Z.div_lt_upper_bound; [apply Z.pow_pos_nonneg; lia |].
      rewrite <- Z.pow_add_r by lia. replace (dq - 53 + 53) with dq by lia.
      apply Hqb. }
  set (r := round_nearest_even (shr_m mrs1) (loc_of_shr_record mrs1)).
  pose proof (round_nearest_even_bounds (shr_m mrs1) (loc_of_shr_record mrs1)) as Hr.
  fold r in Hr.
  assert (Hrb : 2 ^ 52 <= r < 2 ^ 54).
  { change (2 ^ 54) with (2 * 2 ^ 53). lia. }
  assert (Hr0 : 0 < r) by (assert (0 < 2 ^ 52) by (apply Z.pow_pos_nonneg; lia); lia).
  pose proof (Zdigits2_ge r 53 ltac:(apply Hrb) ltac:(lia)) as Hdr1.
  pose proof (Zdigits2_le r 54 ltac:(lia) ltac:(lia)) as Hdr2.
  set (dr := Zdigits2 r) in *.
  rewrite (fexp_small (dr + e1)) by lia.
  pose proof (shr_value (shr_record_of_loc r loc_Exact) e1 (dr + e1 - 53 - e1)) as H2.
  rewrite shr_record_of_loc_m in H2. specialize (H2 ltac:(lia) ltac:(lia)).
  destruct (shr (shr_record_of_loc r loc_Exact) e1 (dr + e1 - 53 - e1)) as [mrs2 e2].
  cbn [fst snd] in H2. destruct H2 as [Hm2 He2].
  assert (Hm2b : 0 < shr_m mrs2).
  { rewrite Hm2. apply Z.div_str_pos. split; [apply Z.pow_pos_nonneg; lia |].
    assert (2 ^ (dr + e1 - 53 - e1) <= 2 ^ 1) by (apply Z.pow_le_mono_r; lia).
    change (2 ^ 52) with 4503599627370496 in Hrb. change (2 ^ 1) with 2 in H. lia. }
  destruct (shr_m mrs2) as [| m2 | m2]; [lia | | lia].
  replace (e2 <=? emax - prec) with false; [reflexivity |].
  symmetry. apply Z.leb_gt. unfold emax, prec. lia.
Qed.

Lemma int_quotient_24_overflow (m : Z) :
  2 ^ 1029 <= Z.abs m ->
  Py.finite_or_overflow (Py.int_quotient m 24) = Py.Raises Py.OverflowError.
Proof.
  intros Hm.
  assert (Hpos : forall (s : bool) (p : positive),
    2 ^ 1029 <= Z.pos p ->
    (let '(q, e, l) := SFdiv_core_binary prec emax (Z.pos p) 0 24 0 in
     binary_round_aux prec emax s q e l) = S754_infinity s).
  { intros s p Hp.
    unfold SFdiv_core_binary. cbn [Zdigits2].
    change IntDef.Z.min with Z.min.
    change IntDef.Z.div_eucl with Z.div_eucl.
    change IntDef.Z.shiftl with Z.shiftl.
    replace (digits2_pos 24) with 5%positive by reflexivity.
    pose proof (Zdigits2_ge (Z.pos p) 1030 ltac:(exact Hp) ltac:(lia)) as Hd.
    cbn [Zdigits2] in Hd.
    set (sz := Z.pos (digits2_pos p)) in *.
    rewrite fexp_small by lia.
    replace (Z.min (sz + 0 - (5 + 0) - 53) (0 - 0)) with 0 by lia.
    cbn [Z.sub Z.opp Z.add].
    rewrite div_eucl_pair.
    apply binary_round_aux_overflow.
    apply Z.div_le_lower_bound; [lia |].
    change (2 ^ 1029) with (24 * 2 ^ 1024 + 8 * 2 ^ 1024) in Hp.
    assert (0 < 2 ^ 1024) by (apply Z.pow_pos_nonneg; lia). lia. }
  destruct m as [| p | p]; cbn [Z.abs] in Hm.
  - exfalso. assert (0 < 2 ^ 1029) by (apply Z.pow_pos_nonneg; lia). lia.
  - change (Py.int_quotient (Z.pos p) 24)
      with (let '(q, e, l) := SFdiv_core_binary prec emax (Z.pos p) 0 24 0 in
            binary_round_aux prec emax false q e l).
    now rewrite (Hpos false p Hm).
  - change (Py.int_quotient (Z.neg p) 24)
      with (let '(q, e, l) := SFdiv_core_binary prec emax (Z.pos p) 0 24 0 in
            binary_round_aux prec emax true q e l).
    now rewrite (Hpos true p Hm).
Qed.

(** ** Int arguments that are exact as floats *)

Lemma Py_truediv_int_24_small (m : Z) :
  Z.abs m < 2 ^ 53 ->
  Py.truediv (Py.Int m) (Py.Int 24) =
  Py.Returns (Py.Float (SFdiv prec emax (float_of_int m) (float_of_int 24))).
Proof.
  intros Hm. destruct (int_quotient_24_small m Hm) as [Hq Hf].
  unfold Py.truediv. cbn [Z.eqb]. rewrite Hf. cbn [Py.bind]. now rewrite Hq.
Qed.

Lemma Py_as_float_int_small (n : Z) :
  Z.abs n < 2 ^ 53 -> Py.as_float (Py.Int n) = Py.Returns (float_of_int n).
Proof.
  intros Hn. unfold Py.as_float.
  assert (Hpos : forall (s : bool) (p : positive),
    Z.pos p < 2 ^ 53 ->
    Py.finite_or_overflow (binary_round prec emax s p 0) =
    Py.Returns (binary_round prec emax s p 0)).
  { intros s p Hp.
    assert (Hsz : (Pos.size p <= 53)%positive).
    { pose proof (size_bounds p) as [Hlo _].
      destruct (Z_lt_le_dec 53 (Z.pos (Pos.size p))) as [Hgt | Hle]; [| lia].
      exfalso.
      assert (2 ^ 53 <= 2 ^ (Z.pos (Pos.size p) - 1))
        by (apply Z.pow_le_mono_r; lia).
      lia. }
    destruct (float_of_pos_small s p Hsz) as [mz [ez [Hf _]]].
    now rewrite Hf. }
  destruct n as [| p | p].
  - reflexivity.
  - apply (Hpos false p). lia.
  - apply (Hpos true p). lia.
Qed.

(** X23: an [int] dose that is exact as a float (magnitude below [2^53])
    gives, with any second argument, exactly what the float of the same
    value gives: the single rounding of [int / int] at step 1 is the
    rounding of the float division. *)
Theorem Py_estimate_homa_ir_int_dose (m : Z) (g : Py.value) :
  Z.abs m < 2 ^ 53 ->
  Py.estimate_homa_ir (Py.Int m) g =
  Py.estimate_homa_ir (Py.Float (float_of_int m)) g.
Proof.
  intros Hm.
  rewrite (Py_estimate_after_step_1 _ g _ (Py_truediv_int_24_small m Hm)).
  rewrite (Py_estimate_after_step_1 _ g _ (Py_truediv_float_24 (float_of_int m))).
  reflexivity.
Qed.

Lemma Py_estimate_homa_ir_int_dose_witness :
  Z.abs 20 < 2 ^ 53 /\
  Py.estimate_homa_ir (Py.Int 20) (Py.Int 140) =
  Py.estimate_homa_ir (Py.Float (float_of_int 20)) (Py.Int 140).
Proof.
  assert (Hm : Z.abs 20 < 2 ^ 53) by reflexivity.
  split; [exact Hm |].
  exact (Py_estimate_homa_ir_int_dose 20 (Py.Int 140) Hm).
Defined.

(** X24: called with two [int]s that are exact as floats, as the example
    cell does, the function never raises and returns the float that the
    binary64 reading of the five steps returns on the converted
    arguments. *)
Theorem Py_estimate_homa_ir_ints (m n : Z) :
  Z.abs m < 2 ^ 53 -> Z.abs n < 2 ^ 53 ->
  exists v : float,
    estimate_homa_ir (float_of_int m) (float_of_int n) = Ok v /\
    Py.estimate_homa_ir (Py.Int m) (Py.Int n) = Py.Returns (Py.Float v).
Proof.
  intros Hm Hn. exists (chained (float_of_int m) (float_of_int n)).
  split; [apply estimate_homa_ir_float |].
  rewrite (Py_estimate_after_step_1 _ _ _ (Py_truediv_int_24_small m Hm)).
  rewrite (Py_as_float_int_small n Hn). reflexivity.
Qed.

Lemma Py_estimate_homa_ir_ints_witness :
  Z.abs 20 < 2 ^ 53 /\ Z.abs 140 < 2 ^ 53 /\
  exists v : float,
    estimate_homa_ir (float_of_int 20) (float_of_int 140) = Ok v /\
    Py.estimate_homa_ir (Py.Int 20) (Py.Int 140) = Py.Returns (Py.Float v).
Proof.
  assert (Hm : Z.abs 20 < 2 ^ 53) by reflexivity.
  assert (Hn : Z.abs 140 < 2 ^ 53) by reflexivity.
  split; [exact Hm | split; [exact Hn |]].
  exact (Py_estimate_homa_ir_ints 20 140 Hm Hn).
Defined.

(** ** Int arguments too large for a float *)

Lemma float_of_int_overflow (n : Z) :
  2 ^ 1024 <= Z.abs n ->
  Py.as_float (Py.Int n) = Py.Raises Py.OverflowError.
Proof.
  intros Hn. unfold Py.as_float.
  assert (Hpos : forall (s : bool) (p : positive),
    2 ^ 1024 <= Z.pos p ->
    binary_round prec emax s p 0 = S754_infinity s).
  { intros s p Hp. unfold binary_round.
    pose proof (Zdigits2_ge (Z.pos p) 1025 ltac:(exact Hp) ltac:(lia)) as Hd.
    cbn [Zdigits2] in Hd.
    rewrite fexp_small by lia. unfold shl_align.
    destruct (Z.pos (digits2_pos p) + 0 - 53 - 0) as [| d | d] eqn:E; try lia.
    now apply binary_round_aux_overflow. }
  destruct n as [| p | p]; cbn [Z.abs] in Hn.
  - exfalso. assert (0 < 2 ^ 1024) by (apply Z.pow_pos_nonneg; lia). lia.
  - unfold float_of_int. cbn [binary_normalize]. now rewrite (Hpos false p Hn).
  - unfold float_of_int. cbn [binary_normalize]. now rewrite (Hpos true p Hn).
Qed.

(** X25: an [int] dose of magnitude [2^1029] or more makes step 1 itself
    raise [OverflowError], whatever the second argument: the quotient by
    24 is too large for a float.  [10^400] is such a dose. *)
Theorem Py_estimate_homa_ir_int_dose_overflow (m : Z) (g : Py.value) :
  2 ^ 1029 <= Z.abs m ->
  Py.estimate_homa_ir (Py.Int m) g = Py.Raises Py.OverflowError.
Proof.
  intros Hm. unfold Py.estimate_homa_ir, Py.truediv at 1. cbn [Z.eqb].
  now rewrite (int_quotient_24_overflow m Hm).
Qed.

Lemma Py_estimate_homa_ir_int_dose_overflow_witness :
  2 ^ 1029 <= Z.abs (10 ^ 400) /\
  Py.estimate_homa_ir (Py.Int (10 ^ 400)) (Py.Int 140) =
  Py.Raises Py.OverflowError.
Proof.
  assert (Hm : 2 ^ 1029 <= Z.abs (10 ^ 400)) by (vm_compute; discriminate).
  split; [exact Hm |].
  exact (Py_estimate_homa_ir_int_dose_overflow (10 ^ 400) (Py.Int 140) Hm).
Defined.

(** X26: an [int] glucose value of magnitude [2^1024] or more makes the
    call raise [OverflowError], whatever the dose, a NaN or an infinite
    float included: the conversion at step 5 fails, unless step 1 has
    failed before it. *)
Theorem Py_estimate_homa_ir_int_glucose_overflow (d : Py.value) (n : Z) :
  2 ^ 1024 <= Z.abs n ->
  Py.estimate_homa_ir d (Py.Int n) = Py.Raises Py.OverflowError.
Proof.
  intros Hn.
  assert (Hrest : forall r1 : float,
      Py.truediv d (Py.Int 24) = Py.Returns (Py.Float r1) ->
      Py.estimate_homa_ir d (Py.Int n) = Py.Raises Py.OverflowError).
  { intros r1 H1. rewrite (Py_estimate_after_step_1 d _ r1 H1).
    now rewrite (float_of_int_overflow n Hn). }
  destruct d as [m | x].
  - destruct (Py.finite_or_overflow (Py.int_quotient m 24)) as [r1 | e] eqn:Hq.
    + apply (Hrest r1). unfold Py.truediv. cbn [Z.eqb]. now rewrite Hq.
    + unfold Py.estimate_homa_ir, Py.truediv at 1. cbn [Z.eqb].
      rewrite Hq. cbn [Py.bind].
      now rewrite (Py_finite_or_overflow_raises _ e Hq).
  - apply (Hrest _ (Py_truediv_float_24 x)).
Qed.

Lemma Py_estimate_homa_ir_int_glucose_overflow_witness :
  2 ^ 1024 <= Z.abs (2 ^ 1024) /\
  Py.estimate_homa_ir (Py.Float S754_nan) (Py.Int (2 ^ 1024)) =
  Py.Raises Py.OverflowError.
Proof.
  assert (Hn : 2 ^ 1024 <= Z.abs (2 ^ 1024)) by (vm_compute; discriminate).
  split; [exact Hn |].
  exact (Py_estimate_homa_ir_int_glucose_overflow
           (Py.Float S754_nan) (2 ^ 1024) Hn).
Defined.
